(** * GRand: a convenience wrapper around the C++ Standard Library RNG

    Shallow embedding of [class GRand] (grand.h, version 1.1.1) and the
    properties of its seeding discipline and of its samplers.

    The class holds a flag [_seed_needed] and an engine [_rng] of type
    [std::mt19937].  Everything it calls from [<random>] is taken through
    the interface [StdRandom] below; the entropy source
    [std::random_device] is an explicit part of the machine state, so that
    every read of it is visible. *)

From Stdlib Require Import ZArith List Bool Lia Floats Uint63.
Import ListNotations.

Local Open Scope Z_scope.

(** ** Integer types *)

(** A C++ integer type, given by the range of its values. *)
Record IntType : Type := { it_min : Z; it_max : Z }.

Definition int : IntType := {| it_min := - 2 ^ 31; it_max := 2 ^ 31 - 1 |}.

Definition in_range (T : IntType) (z : Z) : Prop :=
  it_min T <= z <= it_max T.

(** Conversion to [T], wrap-around written out: [IntType(z)]. *)
Definition cast (T : IntType) (z : Z) : Z :=
  (z - it_min T) mod (it_max T - it_min T + 1) + it_min T.

(** A type that holds the literals [0] and [1] used by [operator()]. *)
Definition holds_0_1 (T : IntType) : Prop := it_min T <= 0 /\ 1 <= it_max T.

(** ** Doubles

    [double] is IEEE binary64, the kernel's primitive [float].  The source
    only compares doubles and negates them. *)

Module Double.

Definition gt (x y : float) : bool := PrimFloat.ltb y x.  (* x >  y *)
Definition lt (x y : float) : bool := PrimFloat.ltb x y.  (* x <  y *)
Definition le (x y : float) : bool := PrimFloat.leb x y.  (* x <= y *)
Definition ge (x y : float) : bool := PrimFloat.leb y x.  (* x >= y *)
Definition neg (x : float) : float := PrimFloat.opp x.    (* -x *)



End Double.

(** ** What the class uses from <random> *)

Class StdRandom : Type := {
  (** [std::mt19937], the engine's state. *)
  rng_type : Type;
  (** [std::numeric_limits<rng_type::result_type>::digits]. *)
  result_digits : Z;
  (** [rng_type()] *)
  rng_default : rng_type;
  (** [rng_type(v)] *)
  rng_construct : Z -> rng_type;
  (** [g.seed(v)] *)
  rng_reseed : Z -> rng_type -> rng_type;
  (** [g()] *)
  rng_call : rng_type -> Z * rng_type;
  (** [rng_type::min()], [rng_type::max()] *)
  rng_min : Z;
  rng_max : Z;
  (** [std::uniform_int_distribution<IntType>(a, b)(g)] *)
  uniform_int_distribution : Z -> Z -> rng_type -> Z * rng_type;
  (** [std::uniform_real_distribution<double>(a, b)(g)] *)
  uniform_real_distribution : float -> float -> rng_type -> float * rng_type;
  (** [std::bernoulli_distribution(p)(g)] *)
  bernoulli_distribution : float -> rng_type -> bool * rng_type
}.

(** The guarantees of the Standard that the proofs name as hypotheses. *)
Section Contracts.
Context {L : StdRandom}.

(** [rand.req.eng]: after [e.seed(s)], [e == E(s)]. *)
Definition seed_as_constructed : Prop :=
  forall v g, rng_reseed v g = rng_construct v.

(** [rand.dist.uni.int]: values [i] with [a <= i <= b]. *)
Definition uniform_int_range : Prop :=
  forall a b g, a <= b -> a <= fst (uniform_int_distribution a b g) <= b.
End Contracts.

(** ** The machine: one instance and the entropy source *)

(** [std::random_device]: the words it will deliver, and how many have
    been read so far.  Each [std::random_device()()] is one read. *)
Record random_device : Type := {
  rd_source : nat -> Z;
  rd_reads : nat
}.

Section GRand.
Context {L : StdRandom}.

(** [rng_type::result_type(s)]: conversion to the unsigned result type. *)
Definition result_type (s : Z) : Z := s mod 2 ^ result_digits.

(** The data members of [class GRand]. *)
Record GRand : Type := {
  _seed_needed : bool;
  _rng : rng_type
}.

Definition machine : Type := (GRand * random_device)%type.

(** A member function: it returns a value and updates the machine. *)
Definition method (A : Type) : Type := machine -> A * machine.

Definition ret {A} (a : A) : method A := fun m => (a, m).

Definition bind {A B} (c : method A) (k : A -> method B) : method B :=
  fun m => let (a, m') := c m in k a m'.

Notation "x <- c ;; k" := (bind c (fun x => k))
  (at level 61, c at next level, right associativity).
Notation "c ;; k" := (bind c (fun _ => k))
  (at level 61, right associativity).

Definition get_seed_needed : method bool :=
  fun m => (_seed_needed (fst m), m).

Definition set_seed_needed (v : bool) : method unit :=
  fun m => (tt, ({| _seed_needed := v; _rng := _rng (fst m) |}, snd m)).

(** [_rng.seed(v)] *)
Definition rng_seed (v : Z) : method unit :=
  fun m => (tt, ({| _seed_needed := _seed_needed (fst m);
                    _rng := rng_reseed v (_rng (fst m)) |}, snd m)).

(** [dist(_rng)], and [_rng()] itself: draw from the engine. *)
Definition draw {A} (dist : rng_type -> A * rng_type) : method A :=
  fun m => let (a, g) := dist (_rng (fst m)) in
           (a, ({| _seed_needed := _seed_needed (fst m); _rng := g |}, snd m)).

(** [std::random_device()()] *)
Definition random_device_call : method Z :=
  fun m => let rd := snd m in
           (rd_source rd (rd_reads rd) mod 2 ^ 32,
            (fst m, {| rd_source := rd_source rd; rd_reads := S (rd_reads rd) |})).

(** *** Constructors *)

(** [GRand()] *)
Definition GRand_default : GRand :=
  {| _seed_needed := true; _rng := rng_default |}.

(** [GRand(SeedType s)] *)
Definition GRand_seeded (s : Z) : GRand :=
  {| _seed_needed := false; _rng := rng_construct (result_type s) |}.

(** *** Member functions *)

(** [void seed()] *)
Definition seed : method unit :=
  set_seed_needed true.

(** [void seed(SeedType s)] *)
Definition seed_with (s : Z) : method unit :=
  set_seed_needed false ;;
  rng_seed (result_type s).

(** [void ck_seed()] *)
Definition ck_seed : method unit :=
  needed <- get_seed_needed ;;
  if negb needed then ret tt
  else
    set_seed_needed false ;;
    w <- random_device_call ;;
    rng_seed (result_type w).

(** [IntType operator()(IntType n)] *)
Definition call_n (T : IntType) (n : Z) : method Z :=
  ck_seed ;;
  if n <=? cast T 0 then ret (cast T 0)
  else draw (uniform_int_distribution (cast T 0) (cast T (n - cast T 1))).

(** [int i(int n=2)] *)
Definition i (n : Z) : method Z :=
  call_n int n.

(** [double d(double d=1.0)] *)
Definition d (x : float) : method float :=
  ck_seed ;;
  if Double.gt x 0 then draw (uniform_real_distribution 0 x)
  else if Double.lt x 0 then
    r <- draw (uniform_real_distribution 0 (Double.neg x)) ;;
    ret (Double.neg r)
  else ret 0%float.

(** [bool b(double p=0.5)] *)
Definition b (p : float) : method bool :=
  ck_seed ;;
  if Double.le p 0 then ret false
  else if Double.ge p 1 then ret true
  else draw (bernoulli_distribution p).

(** [static result_type min()], [static result_type max()] *)
Definition min : Z := rng_min.
Definition max : Z := rng_max.

(** [result_type operator()()] *)
Definition call : method Z :=
  ck_seed ;;
  draw rng_call.

(** *** Histories of one instance *)

Inductive ctor : Type :=
| New                      (* GRand r;      *)
| NewSeeded (s : Z).       (* GRand r(s);   *)

Inductive op : Type :=
| Seed                     (* r.seed()      *)
| SeedWith (s : Z)         (* r.seed(s)     *)
| I (n : Z)                (* r.i(n)        *)
| D (x : float)            (* r.d(x)        *)
| B (p : float)            (* r.b(p)        *)
| Call                     (* r()           *)
| CallN (T : IntType) (n : Z).  (* r(n), n of type T *)

Inductive value : Type :=
| VVoid
| VInt (z : Z)
| VDouble (x : float)
| VBool (v : bool).

Definition construct (c : ctor) : GRand :=
  match c with
  | New => GRand_default
  | NewSeeded s => GRand_seeded s
  end.

Definition exec (o : op) : method value :=
  match o with
  | Seed => seed ;; ret VVoid
  | SeedWith s => seed_with s ;; ret VVoid
  | I n => r <- i n ;; ret (VInt r)
  | D x => r <- d x ;; ret (VDouble r)
  | B p => r <- b p ;; ret (VBool r)
  | Call => r <- call ;; ret (VInt r)
  | CallN T n => r <- call_n T n ;; ret (VInt r)
  end.

Fixpoint run (os : list op) : method (list value) :=
  match os with
  | [] => ret []
  | o :: os' => v <- exec o ;; vs <- run os' ;; ret (v :: vs)
  end.

(** The operations that produce output. *)
Definition sampling (o : op) : bool :=
  match o with
  | Seed | SeedWith _ => false
  | _ => true
  end.

(** The instance and the number of entropy reads of a machine; the
    value and the machine a member function leaves. *)
Definition self (m : machine) : GRand := fst m.
Definition reads (m : machine) : nat := rd_reads (snd m).
Definition returned {A} (c : method A) (m : machine) : A := fst (c m).
Definition after {A} (c : method A) (m : machine) : machine := snd (c m).

(** The engine was seeded at some point and has only been drawn from
    since. *)
Inductive engine_seeded : rng_type -> Prop :=
| seeded_construct v : engine_seeded (rng_construct v)
| seeded_reseed v g : engine_seeded (rng_reseed v g)
| seeded_call g :
    engine_seeded g -> engine_seeded (snd (rng_call g))
| seeded_int a b g :
    engine_seeded g -> engine_seeded (snd (uniform_int_distribution a b g))
| seeded_real a b g :
    engine_seeded g -> engine_seeded (snd (uniform_real_distribution a b g))
| seeded_bernoulli p g :
    engine_seeded g -> engine_seeded (snd (bernoulli_distribution p g)).

End GRand.

Arguments GRand : clear implicits.
Arguments machine : clear implicits.
Arguments method : clear implicits.

(** ** A concrete library

    An instance of [StdRandom] on which the model runs: the engine is
    [std::mt19937] as [rand.predef] fixes it.  The Standard leaves the
    algorithms of the distributions open.  The real and the Bernoulli
    distribution are written as libstdc++ computes them, on
    [std::generate_canonical]: two engine words per sample, and no check
    of the result against the bounds.  The integer distribution is a
    stand-in that takes one engine word per sample. *)

Module Mt19937.

Definition w : Z := 32.
Definition n : nat := 624.
Definition m : nat := 397.
Definition a : Z := 0x9908b0df.
Definition u : Z := 11.
Definition s : Z := 7.
Definition b : Z := 0x9d2c5680.
Definition t : Z := 15.
Definition c : Z := 0xefc60000.
Definition l : Z := 18.
Definition f : Z := 1812433253.
Definition default_seed : Z := 5489.

Definition upper_mask : Z := 0x80000000.
Definition lower_mask : Z := 0x7fffffff.

(** The [n] words of the state and the position of the next one. *)
Record state : Type := { x : list Z; p : nat }.

(** [x_k = (f * (x_{k-1} xor (x_{k-1} >> (w-2))) + k) mod 2^w], for
    [k] from [k0] on, [count] words. *)
Fixpoint fill (count : nat) (k : Z) (prev : Z) : list Z :=
  match count with
  | O => []
  | S count' =>
      let xk := (f * Z.lxor prev (Z.shiftr prev (w - 2)) + k) mod 2 ^ w in
      xk :: fill count' (k + 1) xk
  end.

Definition seed (value : Z) : state :=
  let x0 := value mod 2 ^ w in
  {| x := x0 :: fill (n - 1) 1 x0; p := n |}.

Fixpoint set (k : nat) (v : Z) (xs : list Z) : list Z :=
  match xs, k with
  | [], _ => []
  | _ :: xs', O => v :: xs'
  | y :: xs', S k' => y :: set k' v xs'
  end.

(** One step of the in-place regeneration of the state. *)
Definition twist_at (xs : list Z) (k : nat) : list Z :=
  let y := Z.lor (Z.land (nth k xs 0) upper_mask)
                 (Z.land (nth (Nat.modulo (k + 1) n) xs 0) lower_mask) in
  let mag := if Z.odd y then a else 0 in
  set k (Z.lxor (Z.lxor (nth (Nat.modulo (k + m) n) xs 0) (Z.shiftr y 1)) mag) xs.

Definition twist (xs : list Z) : list Z :=
  fold_left twist_at (seq 0 n) xs.

Definition temper (y : Z) : Z :=
  let y := Z.lxor y (Z.land (Z.shiftr y u) 0xffffffff) in
  let y := Z.lxor y (Z.land (Z.shiftl y s) b) in
  let y := Z.lxor y (Z.land (Z.shiftl y t) c) in
  Z.lxor y (Z.shiftr y l).

Definition call (g : state) : Z * state :=
  let g := if Nat.leb n (p g) then {| x := twist (x g); p := 0 |} else g in
  (temper (nth (p g) (x g) 0), {| x := x g; p := Datatypes.S (p g) |}).

Definition min : Z := 0.
Definition max : Z := 2 ^ w - 1.

(** [double(z)] for an engine word [z]. *)
Definition to_double (z : Z) : float := PrimFloat.of_uint63 (Uint63.of_Z z).

(** The range of the engine as a double: [max() - min() + 1]. *)
Definition range : float := 4294967296.

(** [std::generate_canonical<double, 53>(g)]: two words make the 53
    bits.  The sum is formed in doubles, lowest word first, and divided
    by [range * range]; a quotient that rounds up to 1 is replaced by
    the double just below 1. *)
Definition canonical (g : state) : float * state :=
  let (z1, g1) := call g in
  let (z2, g2) := call g1 in
  let sum := PrimFloat.add 0 (PrimFloat.mul (to_double z1) 1) in
  let tmp := PrimFloat.mul 1 range in
  let sum := PrimFloat.add sum (PrimFloat.mul (to_double z2) tmp) in
  let tmp := PrimFloat.mul tmp range in
  let ret := PrimFloat.div sum tmp in
  ((if Double.ge ret 1 then PrimFloat.next_down 1 else ret), g2).

Definition uniform_int (lo hi : Z) (g : state) : Z * state :=
  let (z, g') := call g in
  (lo + z mod (hi - lo + 1), g').

(** [canonical * (b - a) + a] *)
Definition uniform_real (lo hi : float) (g : state) : float * state :=
  let (c, g') := canonical g in
  (PrimFloat.add (PrimFloat.mul c (PrimFloat.sub hi lo)) lo, g').

(** [canonical - 0 < p * (1 - 0)] *)
Definition bernoulli (q : float) (g : state) : bool * state :=
  let (c, g') := canonical g in
  (Double.lt (PrimFloat.sub c 0) (PrimFloat.mul q (PrimFloat.sub 1 0)), g').

End Mt19937.

#[export] Instance mt19937_library : StdRandom := {|
  rng_type := Mt19937.state;
  result_digits := 32;
  rng_default := Mt19937.seed Mt19937.default_seed;
  rng_construct := Mt19937.seed;
  rng_reseed := fun v _ => Mt19937.seed v;
  rng_call := Mt19937.call;
  rng_min := Mt19937.min;
  rng_max := Mt19937.max;
  uniform_int_distribution := Mt19937.uniform_int;
  uniform_real_distribution := Mt19937.uniform_real;
  bernoulli_distribution := Mt19937.bernoulli
|}.

(** The entropy source used in the examples: its k-th word is [k + 1]. *)
Definition counting_device : random_device :=
  {| rd_source := fun k => Z.of_nat k + 1; rd_reads := 0 |}.

(** Another one, already read from, that only delivers zeros. *)
Definition silent_device : random_device :=
  {| rd_source := fun _ => 0; rd_reads := 5 |}.

(** The k-th next word of an engine, counting from 0. *)
Fixpoint nth_call (k : nat) (g : Mt19937.state) : Z :=
  match k with
  | O => fst (Mt19937.call g)
  | S k' => nth_call k' (snd (Mt19937.call g))
  end.

(** [GRand r;] and [GRand r(7);] next to that entropy source. *)
Definition fresh_machine : machine mt19937_library :=
  (GRand_default, counting_device).

Definition seeded_machine : machine mt19937_library :=
  (GRand_seeded 7, counting_device).

(** ** Histories and the seeding discipline *)

Section History.
Context {L : StdRandom}.

(** The machine a history leaves: a constructor, then calls. *)
Definition reach (c : ctor) (os : list op) (rd : random_device)
  : machine L :=
  after (run os) (construct c, rd).

Inductive event : Type :=
| Construct (c : ctor)
| Invoke (o : op).

Definition history (c : ctor) (os : list op) : list event :=
  Construct c :: map Invoke os.

(** [GRand r;] and [r.seed()] ask for a seed from entropy. *)
Definition seed_request (e : event) : bool :=
  match e with
  | Construct New | Invoke Seed => true
  | _ => false
  end.








End History.

(** ** Entropy words, engine streams and the requests made of the library *)

(** The word the next [std::random_device()()] delivers, and the source
    once it has been read. *)
Definition next_word (rd : random_device) : Z :=
  rd_source rd (rd_reads rd) mod 2 ^ 32.

Definition consumed (rd : random_device) : random_device :=
  {| rd_source := rd_source rd; rd_reads := S (rd_reads rd) |}.

Section Streams.
Context {L : StdRandom}.

(** The next [k] words of an engine: [g(), g(), ...]. *)
Fixpoint engine_words (k : nat) (g : rng_type) : list Z :=
  match k with
  | O => []
  | S k' => let (z, g') := rng_call g in z :: engine_words k' g'
  end.

(** [rand.req.urng]: a seeded engine returns values between its [min()]
    and [max()]. *)
Definition rng_call_range : Prop :=
  forall g, engine_seeded g -> rng_min <= fst (rng_call g) <= rng_max.

End Streams.


(** ** The library calls an instance makes

    Any library [L] can be wrapped so that its engine also carries the
    list of requests made of it, most recent first.  The wrapped library
    returns what [L] returns. *)

Inductive request : Type :=
| NextWord                        (* g()                                  *)
| UniformInt (a b : Z)            (* uniform_int_distribution(a, b)(g)    *)
| UniformReal (a b : float)       (* uniform_real_distribution(a, b)(g)   *)
| Bernoulli (p : float).          (* bernoulli_distribution(p)(g)         *)

(** [dist(g)], noting the request [r]. *)
Definition noting {G A : Type} (r : request) (dist : G -> A * G)
    (g : G * list request) : A * (G * list request) :=
  let (a, g') := dist (fst g) in (a, (g', r :: snd g)).

Definition logged (L : StdRandom) : StdRandom := {|
  rng_type := (@rng_type L * list request)%type;
  result_digits := @result_digits L;
  rng_default := (@rng_default L, []);
  rng_construct := fun v => (@rng_construct L v, []);
  rng_reseed := fun v g => (@rng_reseed L v (fst g), snd g);
  rng_call := noting NextWord (@rng_call L);
  rng_min := @rng_min L;
  rng_max := @rng_max L;
  uniform_int_distribution :=
    fun a b => noting (UniformInt a b) (@uniform_int_distribution L a b);
  uniform_real_distribution :=
    fun a b => noting (UniformReal a b) (@uniform_real_distribution L a b);
  bernoulli_distribution :=
    fun p => noting (Bernoulli p) (@bernoulli_distribution L p)
|}.

(** The requests made so far, and the machine without that record. *)
Definition requests_made {L : StdRandom} (m : machine (logged L))
  : list request :=
  snd (_rng (self m)).

Definition unlogged {L : StdRandom} (m : machine (logged L)) : machine L :=
  ({| _seed_needed := _seed_needed (self m); _rng := fst (_rng (self m)) |},
   snd m).

(** What the guards of [operator()(n)], [d] and [b] let through: integer
    bounds [0 <= b], real bounds [0 < b], and a probability strictly
    between 0 and 1, or NaN. *)
Definition let_through (r : request) : Prop :=
  match r with
  | NextWord => True
  | UniformInt a b => a = 0 /\ 0 <= b
  | UniformReal a b => a = 0%float /\ Double.lt 0 b = true
  | Bernoulli p =>
      (Double.gt p 0 = true /\ Double.lt p 1 = true) \/
      PrimFloat.is_nan p = true
  end.

(** The argument of a call has the type the member function declares. *)
Definition well_typed (o : op) : Prop :=
  match o with
  | I n => in_range int n
  | CallN T n => holds_0_1 T /\ in_range T n
  | _ => True
  end.





(** A 32-bit word, and an engine state made of such words. *)
Definition word32 (z : Z) : Prop := 0 <= z < 2 ^ 32.

Definition mt19937_words (g : Mt19937.state) : Prop :=
  Forall word32 (Mt19937.x g).


(** [unsigned long] where it has 64 bits, the difference type's unsigned
    partner that [std::random_shuffle] may call [operator()(n)] with. *)
Definition unsigned_long : IntType := {| it_min := 0; it_max := 2 ^ 64 - 1 |}.

Section Wrapped.
Context {L : StdRandom}.

(** [c'] on the wrapped machine does what [c] does on the machine
    without the record. *)
Definition mirrors {A} (c' : method (logged L) A) (c : method L A) : Prop :=
  forall m, c (unlogged m) = (fst (c' m), unlogged (snd (c' m))).

(** [c'] keeps the record within what the guards let through. *)
Definition guarded {A} (c' : method (logged L) A) : Prop :=
  forall m, Forall let_through (requests_made m) ->
            Forall let_through (requests_made (snd (c' m))).



End Wrapped.

(** ** Proof steps for unfolding one call *)

Ltac by_cases :=
  repeat first
    [ progress cbn [fst snd _seed_needed _rng negb andb sampling]
    | match goal with
    | |- context [rng_call ?g] => destruct (rng_call g)
    | |- context [uniform_int_distribution ?lo ?hi ?g] =>
        destruct (uniform_int_distribution lo hi g)
    | |- context [uniform_real_distribution ?lo ?hi ?g] =>
        destruct (uniform_real_distribution lo hi g)
    | |- context [bernoulli_distribution ?p ?g] =>
        destruct (bernoulli_distribution p g)
    | |- context [if ?c then _ else _] => destruct c
    end ];
  try reflexivity.

Ltac unfold_calls :=
  unfold exec, i, call_n, d, b, call, seed, seed_with, ck_seed, bind, ret,
    draw, rng_seed, random_device_call, set_seed_needed, get_seed_needed.

(** * Properties *)

(** ** The engine model against the Standard's check values *)

(** [rand.predef]: the 10000th consecutive invocation of a
    default-constructed [mt19937] produces 4123659995. *)
Example mt19937_check_value :
  nth_call (Z.to_nat 9999) (Mt19937.seed Mt19937.default_seed) = 4123659995.
Proof. vm_compute. reflexivity. Qed.

Example mt19937_first_value :
  nth_call 0 (Mt19937.seed Mt19937.default_seed) = 3499211612.
Proof. vm_compute. reflexivity. Qed.

(** ** Comparisons and negation of doubles *)

Module DoubleFacts.

Lemma compare_cont_flip (p q : positive) :
  Pos.compare_cont Eq q p = CompOpp (Pos.compare_cont Eq p q).
Proof. exact (Pos.compare_antisym p q). Qed.

Lemma SFcompare_antisym (x y : spec_float) :
  SFcompare y x = option_map CompOpp (SFcompare x y).
Proof.
  destruct x as [sx|sx| |sx mx ex]; destruct y as [sy|sy| |sy my ey];
    try destruct sx; try destruct sy; try reflexivity.
  all: unfold SFcompare.
  all: rewrite (Z.compare_antisym ex ey), (compare_cont_flip mx my).
  all: destruct (ex ?= ey); cbn; try reflexivity.
  all: now destruct (Pos.compare_cont Eq mx my).
Qed.

(** [x < y] excludes [x >= y]. *)
Lemma lt_not_ge (x y : float) :
  Double.lt x y = true -> Double.ge x y = false.
Proof.
  unfold Double.lt, Double.ge.
  rewrite FloatAxioms.leb_spec, FloatAxioms.ltb_spec.
  unfold SFltb, SFleb.
  rewrite (SFcompare_antisym (Prim2SF x) (Prim2SF y)).
  destruct (SFcompare (Prim2SF x) (Prim2SF y)) as [[]|]; cbn; congruence.
Qed.



(** Whatever compares below something is not a NaN. *)
Lemma lt_le_refl (x y : float) :
  Double.lt x y = true -> Double.le x x = true.
Proof.
  unfold Double.lt, Double.le.
  rewrite FloatAxioms.ltb_spec, FloatAxioms.leb_spec.
  destruct (Prim2SF x) as [sx|sx| |sx mx ex];
    try destruct sx; cbn; try congruence; intros _.
  all: unfold SFleb, SFcompare.
  all: rewrite Z.compare_refl, Pos.compare_cont_refl; reflexivity.
Qed.

(** The three branches of [d] exclude one another. *)
Lemma lt_zero_not_gt (x : float) :
  Double.lt x 0 = true -> Double.gt x 0 = false.
Proof.
  unfold Double.lt, Double.gt.
  rewrite !FloatAxioms.ltb_spec.
  change (Prim2SF 0) with (S754_zero false).
  destruct (Prim2SF x) as [sx|sx| |sx mx ex];
    try destruct sx; cbn; congruence.
Qed.

Lemma eq_zero_not_gt_lt (x : float) :
  PrimFloat.eqb x 0 = true ->
  Double.gt x 0 = false /\ Double.lt x 0 = false.
Proof.
  unfold Double.lt, Double.gt.
  rewrite !FloatAxioms.ltb_spec, FloatAxioms.eqb_spec.
  change (Prim2SF 0) with (S754_zero false).
  destruct (Prim2SF x) as [sx|sx| |sx mx ex];
    try destruct sx; cbn; try congruence; auto.
Qed.

(** For [x < 0] the upper bound [-x] is above the lower bound 0. *)
Lemma neg_positive (x : float) :
  Double.lt x 0 = true -> Double.lt 0 (Double.neg x) = true.
Proof.
  unfold Double.lt, Double.neg.
  rewrite !FloatAxioms.ltb_spec, FloatAxioms.opp_spec.
  change (Prim2SF 0) with (S754_zero false).
  destruct (Prim2SF x) as [sx|sx| |sx mx ex];
    try destruct sx; cbn; congruence.
Qed.

(** The branches of [b] exclude one another. *)
Lemma ge_one_not_le_zero (p : float) :
  Double.ge p 1 = true -> Double.le p 0 = false.
Proof.
  unfold Double.le, Double.ge.
  rewrite !FloatAxioms.leb_spec.
  change (Prim2SF 0) with (S754_zero false).
  change (Prim2SF 1) with (S754_finite false 4503599627370496 (-52)).
  destruct (Prim2SF p) as [sp|sp| |sp mp ep];
    try destruct sp; cbn; congruence.
Qed.

Lemma lt_one_not_ge (p : float) :
  Double.lt p 1 = true -> Double.ge p 1 = false.
Proof. apply lt_not_ge. Qed.

Lemma zero_eq_zero : PrimFloat.eqb 0 0 = true.
Proof. reflexivity. Qed.




End DoubleFacts.

(** ** Integer conversions that do not wrap *)

Lemma cast_in_range (T : IntType) (z : Z) :
  in_range T z -> cast T z = z.
Proof.
  unfold in_range, cast. intros Hz.
  rewrite Z.mod_small by lia. lia.
Qed.

(** ** The lazy-seed check *)

Section LazySeed.
Context {L : StdRandom}.

(** With no seed pending, [ck_seed] does nothing at all. *)
Lemma ck_seed_idle (m : machine L) :
  _seed_needed (self m) = false -> ck_seed m = (tt, m).
Proof.
  destruct m as [[needed g] rd]. cbn. intros ->. reflexivity.
Qed.

(** With a seed pending, it reads the entropy source once, seeds the
    engine with the word read and clears the flag. *)
Lemma ck_seed_pending (m : machine L) :
  _seed_needed (self m) = true ->
  ck_seed m =
    (tt,
     ({| _seed_needed := false;
         _rng := rng_reseed
                   (result_type (rd_source (snd m) (rd_reads (snd m)) mod 2 ^ 32))
                   (_rng (self m)) |},
      {| rd_source := rd_source (snd m); rd_reads := S (rd_reads (snd m)) |})).
Proof.
  destruct m as [[needed g] rd]. cbn. intros ->. reflexivity.
Qed.

Lemma ck_seed_clears (m : machine L) :
  _seed_needed (self (after ck_seed m)) = false.
Proof.
  destruct m as [[[] g] rd]; reflexivity.
Qed.

Lemma ck_seed_seeds (m : machine L) :
  _seed_needed (self m) = true \/ engine_seeded (_rng (self m)) ->
  engine_seeded (_rng (self (after ck_seed m))).
Proof.
  destruct m as [[[] g] rd]; cbn.
  - intros _. apply seeded_reseed.
  - intros [H | H]; [discriminate | exact H].
Qed.

(** Entropy reads of the check: one when pending, none otherwise. *)
Lemma ck_seed_reads (m : machine L) :
  reads (after ck_seed m) =
    if _seed_needed (self m) then S (reads m) else reads m.
Proof.
  destruct m as [[[] g] rd]; reflexivity.
Qed.

(** Drawing from the engine touches neither the flag nor the entropy
    source. *)
Lemma draw_frame {A} (dist : rng_type -> A * rng_type) (m : machine L) :
  _seed_needed (self (after (draw dist) m)) = _seed_needed (self m) /\
  snd (after (draw dist) m) = snd m /\
  returned (draw dist) m = fst (dist (_rng (self m))) /\
  _rng (self (after (draw dist) m)) = snd (dist (_rng (self m))).
Proof.
  destruct m as [[needed g] rd]. unfold after, returned, draw. cbn.
  destruct (dist g); cbn. auto.
Qed.

Lemma draw_returns {A} (dist : rng_type -> A * rng_type) (m : machine L) :
  fst (draw dist m) = fst (dist (_rng (self m))).
Proof. apply (draw_frame dist m). Qed.

(** Every sampler is the check followed by a body. *)
Lemma after_check {A} (body : method L A) (m : machine L) :
  bind ck_seed (fun _ => body) m = body (after ck_seed m).
Proof.
  unfold bind, after. destruct (ck_seed m) as [[] m']. reflexivity.
Qed.

End LazySeed.

(** ** Integers: [operator()(n)] and [i(n)] *)

Section Integers.
Context {L : StdRandom}.

Lemma call_n_nonpositive (T : IntType) (n : Z) (m : machine L) :
  holds_0_1 T -> n <= 0 -> returned (call_n T n) m = 0.
Proof.
  intros [H0 H1] Hn. unfold returned, call_n.
  rewrite after_check, (cast_in_range T 0) by (unfold in_range; lia).
  destruct (Z.leb_spec n 0); [reflexivity | lia].
Qed.

Lemma call_n_positive (T : IntType) (n : Z) (m : machine L) :
  uniform_int_range -> holds_0_1 T -> in_range T n -> 0 < n ->
  0 <= returned (call_n T n) m <= n - 1.
Proof.
  intros Hlib [H0 H1] Hn Hpos. unfold returned, call_n.
  rewrite after_check.
  rewrite (cast_in_range T 0), (cast_in_range T 1) by (unfold in_range; lia).
  rewrite (cast_in_range T (n - 1)) by (unfold in_range in *; lia).
  destruct (Z.leb_spec n 0); [lia |].
  rewrite draw_returns. apply Hlib. lia.
Qed.

(** C1.  For every [int n <= 0], [i(n)] returns 0; for every [int n > 0]
    the value returned lies in [{0, ..., n-1}], the library's
    [uniform_int_distribution] keeping to its range. *)
Theorem i_range (n : Z) (m : machine L) :
  (n <= 0 -> returned (i n) m = 0) /\
  (uniform_int_range -> in_range int n -> 0 < n ->
   0 <= returned (i n) m <= n - 1).
Proof.
  assert (Hint : holds_0_1 int) by (unfold holds_0_1; cbn; lia).
  split.
  - intros Hn. now apply call_n_nonpositive.
  - intros Hlib Hn Hpos. now apply call_n_positive.
Qed.

End Integers.

(** ** Doubles and booleans: [d(x)] and [b(p)] *)

Section Reals.
Context {L : StdRandom}.

(** [d(x)] by the sign of [x]. *)
Lemma d_positive (x : float) (m : machine L) :
  Double.gt x 0 = true ->
  d x m = draw (uniform_real_distribution 0 x) (after ck_seed m).
Proof.
  intros Hx. unfold d. rewrite after_check, Hx. reflexivity.
Qed.

Lemma d_negative (x : float) (m : machine L) :
  Double.lt x 0 = true ->
  d x m =
    bind (draw (uniform_real_distribution 0 (Double.neg x)))
         (fun r => ret (Double.neg r)) (after ck_seed m).
Proof.
  intros Hx. unfold d.
  rewrite after_check, (DoubleFacts.lt_zero_not_gt x Hx), Hx. reflexivity.
Qed.

Lemma d_zero (x : float) (m : machine L) :
  PrimFloat.eqb x 0 = true -> d x m = (0%float, after ck_seed m).
Proof.
  intros Hx. destruct (DoubleFacts.eq_zero_not_gt_lt x Hx) as [Hgt Hlt].
  unfold d. rewrite after_check, Hgt, Hlt. reflexivity.
Qed.




End Reals.

(** ** The short-circuit paths *)

Section ShortCircuits.
Context {L : StdRandom}.

Lemma after_ck_seed_idle (m : machine L) :
  _seed_needed (self m) = false -> after ck_seed m = m.
Proof.
  intros H. unfold after. now rewrite ck_seed_idle.
Qed.

Lemma after_ck_seed_twice (m : machine L) :
  after ck_seed (after ck_seed m) = after ck_seed m.
Proof. apply after_ck_seed_idle, ck_seed_clears. Qed.

Lemma after_d_zero (m : machine L) : after (d 0) m = after ck_seed m.
Proof.
  unfold after at 1. now rewrite (d_zero 0 m DoubleFacts.zero_eq_zero).
Qed.

(** C4, as the code has it.  [d(0.0)] returns 0.0 and draws nothing from
    the engine: all it does to the machine is the lazy-seed check.  With
    no seed pending the machine (flag, engine, entropy source) is
    unchanged; in any case every call after the first leaves it
    unchanged. *)
Theorem d_zero_frame (m : machine L) (k : nat) :
  returned (d 0) m = 0%float /\
  after (d 0) m = after ck_seed m /\
  (_seed_needed (self m) = false -> Nat.iter k (after (d 0)) m = m) /\
  Nat.iter k (after (d 0)) (after (d 0) m) = after (d 0) m.
Proof.
  split; [| split; [| split]].
  - unfold returned. now rewrite (d_zero 0 m DoubleFacts.zero_eq_zero).
  - apply after_d_zero.
  - intros Hm. induction k as [| k IH]; [reflexivity |].
    rewrite Nat.iter_succ, IH, after_d_zero. now apply after_ck_seed_idle.
  - induction k as [| k IH]; [reflexivity |].
    rewrite Nat.iter_succ, IH, !after_d_zero. apply after_ck_seed_twice.
Qed.

Lemma b_nonpositive (p : float) (m : machine L) :
  Double.le p 0 = true -> b p m = (false, after ck_seed m).
Proof.
  intros Hp. unfold b. rewrite after_check, Hp. reflexivity.
Qed.

Lemma b_at_least_one (p : float) (m : machine L) :
  Double.ge p 1 = true -> b p m = (true, after ck_seed m).
Proof.
  intros Hp. unfold b.
  rewrite after_check, (DoubleFacts.ge_one_not_le_zero p Hp), Hp. reflexivity.
Qed.

Lemma b_between (p : float) (m : machine L) :
  Double.gt p 0 = true -> Double.lt p 1 = true ->
  b p m = draw (bernoulli_distribution p) (after ck_seed m).
Proof.
  intros H0 H1. unfold b.
  change (Double.le p 0) with (Double.ge 0 p).
  rewrite after_check, (DoubleFacts.lt_not_ge 0 p H0), (DoubleFacts.lt_one_not_ge p H1).
  reflexivity.
Qed.

(** C7, as the code has it.  [b(p)] with [p <= 0] returns false and with
    [p >= 1] returns true, in both cases drawing nothing from the
    engine: all it does to the machine is the lazy-seed check, so the
    machine (flag, engine, entropy source) is unchanged when no seed is
    pending.  For [0 < p < 1] the result is the library's Bernoulli draw
    with parameter [p] from the engine the check leaves. *)
Theorem b_cases (p : float) (m : machine L) :
  (Double.le p 0 = true ->
     returned (b p) m = false /\
     after (b p) m = after ck_seed m /\
     (_seed_needed (self m) = false -> after (b p) m = m)) /\
  (Double.ge p 1 = true ->
     returned (b p) m = true /\
     after (b p) m = after ck_seed m /\
     (_seed_needed (self m) = false -> after (b p) m = m)) /\
  (Double.gt p 0 = true -> Double.lt p 1 = true ->
     b p m = draw (bernoulli_distribution p) (after ck_seed m)).
Proof.
  split; [| split].
  - intros Hp. unfold returned, after at 1 3. rewrite b_nonpositive by exact Hp.
    cbn [fst snd]. repeat split. now apply after_ck_seed_idle.
  - intros Hp. unfold returned, after at 1 3. rewrite b_at_least_one by exact Hp.
    cbn [fst snd]. repeat split. now apply after_ck_seed_idle.
  - apply b_between.
Qed.

Lemma sampler_clears {A} (body : method L A) (m : machine L) :
  (forall m', _seed_needed (self m') = false ->
              _seed_needed (self (after body m')) = false) ->
  _seed_needed (self (after (bind ck_seed (fun _ => body)) m)) = false.
Proof.
  intros Hbody. unfold after at 1. rewrite after_check.
  apply Hbody, ck_seed_clears.
Qed.

Lemma draw_keeps_flag {A} (dist : rng_type -> A * rng_type) (m : machine L) :
  _seed_needed (self m) = false ->
  _seed_needed (self (after (draw dist) m)) = false.
Proof.
  intros Hm. now rewrite (proj1 (draw_frame dist m)).
Qed.

Lemma call_n_clears (T : IntType) (n : Z) (m : machine L) :
  _seed_needed (self (after (call_n T n) m)) = false.
Proof.
  apply sampler_clears. intros m' Hm'.
  destruct (n <=? cast T 0); [exact Hm' | now apply draw_keeps_flag].
Qed.

Lemma d_clears (x : float) (m : machine L) :
  _seed_needed (self (after (d x) m)) = false.
Proof.
  apply sampler_clears. intros m' Hm'.
  destruct (Double.gt x 0); [now apply draw_keeps_flag |].
  destruct (Double.lt x 0); [| exact Hm'].
  unfold after, bind.
  pose proof (draw_keeps_flag
                (uniform_real_distribution 0 (Double.neg x)) m' Hm') as H.
  unfold after in H. now destruct (draw _ m').
Qed.

Lemma b_clears (p : float) (m : machine L) :
  _seed_needed (self (after (b p) m)) = false.
Proof.
  apply sampler_clears. intros m' Hm'.
  destruct (Double.le p 0); [exact Hm' |].
  destruct (Double.ge p 1); [exact Hm' | now apply draw_keeps_flag].
Qed.

Lemma call_clears (m : machine L) :
  _seed_needed (self (after call m)) = false.
Proof.
  apply sampler_clears. intros m' Hm'. now apply draw_keeps_flag.
Qed.

(** C10.  After any of [i], [d], [b], [operator()()] and
    [operator()(n)] returns, [_seed_needed] is false, whatever the
    machine was before the call; this includes the short-circuit paths
    [d(0.0)], [b(p <= 0)] and [b(p >= 1)]. *)
Theorem sampling_clears_seed_needed
    (T : IntType) (n : Z) (x p : float) (m : machine L) :
  _seed_needed (self (after (i n) m)) = false /\
  _seed_needed (self (after (d x) m)) = false /\
  _seed_needed (self (after (b p) m)) = false /\
  _seed_needed (self (after call m)) = false /\
  _seed_needed (self (after (call_n T n) m)) = false.
Proof.
  repeat split.
  - apply call_n_clears.
  - apply d_clears.
  - apply b_clears.
  - apply call_clears.
  - apply call_n_clears.
Qed.

End ShortCircuits.

(** ** Calls, one at a time *)

Section Calls.
Context {L : StdRandom}.

(** What a call does to the flag: only [seed()] leaves it set. *)
Lemma exec_flag (o : op) (m : machine L) :
  _seed_needed (self (after (exec o) m)) = seed_request (Invoke o).
Proof.
  destruct m as [[needed g] rd], o; unfold after, self; unfold_calls;
    destruct needed; by_cases.
Qed.

(** A call reads the entropy source once if it samples while a seed is
    pending, and not at all otherwise. *)
Lemma exec_reads (o : op) (m : machine L) :
  reads (after (exec o) m) =
    if sampling o && _seed_needed (self m) then S (reads m) else reads m.
Proof.
  destruct m as [[needed g] rd], o; unfold after, reads, self; unfold_calls;
    destruct needed; by_cases.
Qed.

(** With no seed pending, a sampling call neither reads nor writes the
    entropy source: run next to another source it returns the same
    value and leaves the same instance. *)
Lemma exec_seeded_frame (o : op) (g : GRand L) (rd rd' : random_device) :
  sampling o = true -> _seed_needed g = false ->
  exec o (g, rd') =
    (returned (exec o) (g, rd), (self (after (exec o) (g, rd)), rd')).
Proof.
  destruct g as [needed g]. intros Ho Hg.
  cbn [_seed_needed] in Hg. subst needed.
  destruct o; try discriminate; unfold returned, after, self;
    unfold_calls; by_cases.
Qed.

Lemma draw_seeded {A} (dist : rng_type -> A * rng_type) (m : machine L) :
  (forall g, engine_seeded g -> engine_seeded (snd (dist g))) ->
  engine_seeded (_rng (self m)) ->
  engine_seeded (_rng (self (after (draw dist) m))).
Proof.
  intros Hdist Hm.
  destruct (draw_frame dist m) as (_ & _ & _ & ->). now apply Hdist.
Qed.

Lemma sampler_seeded {A} (body : method L A) (m : machine L) :
  (forall m', engine_seeded (_rng (self m')) ->
              engine_seeded (_rng (self (after body m')))) ->
  _seed_needed (self m) = true \/ engine_seeded (_rng (self m)) ->
  engine_seeded (_rng (self (after (bind ck_seed (fun _ => body)) m))).
Proof.
  intros Hbody Hm. unfold after at 1. rewrite after_check.
  now apply Hbody, ck_seed_seeds.
Qed.

(** A sampling call leaves a seeded engine behind. *)
Lemma sampling_seeded (o : op) (m : machine L) :
  sampling o = true ->
  _seed_needed (self m) = true \/ engine_seeded (_rng (self m)) ->
  engine_seeded (_rng (self (after (exec o) m))).
Proof.
  intros Ho Hm.
  assert (Hret : forall A B (c : method L A) (f : A -> B) m0,
             after (bind c (fun r => ret (f r))) m0 = after c m0).
  { intros. unfold after, bind, ret. now destruct (c m0). }
  destruct o; try discriminate; cbn [exec]; rewrite Hret.
  - apply sampler_seeded; [| exact Hm]. intros m' Hm'.
    destruct (n <=? cast int 0); [exact Hm' |].
    apply draw_seeded; [apply seeded_int | exact Hm'].
  - apply sampler_seeded; [| exact Hm]. intros m' Hm'.
    destruct (Double.gt x 0).
    { apply draw_seeded; [apply seeded_real | exact Hm']. }
    destruct (Double.lt x 0); [| exact Hm'].
    rewrite Hret. apply draw_seeded; [apply seeded_real | exact Hm'].
  - apply sampler_seeded; [| exact Hm]. intros m' Hm'.
    destruct (Double.le p 0); [exact Hm' |].
    destruct (Double.ge p 1); [exact Hm' |].
    apply draw_seeded; [apply seeded_bernoulli | exact Hm'].
  - apply sampler_seeded; [| exact Hm]. intros m' Hm'.
    apply draw_seeded; [apply seeded_call | exact Hm'].
  - apply sampler_seeded; [| exact Hm]. intros m' Hm'.
    destruct (n <=? cast T 0); [exact Hm' |].
    apply draw_seeded; [apply seeded_int | exact Hm'].
Qed.

(** A call keeps the engine seeded, or leaves a seed pending. *)
Lemma exec_seeded (o : op) (m : machine L) :
  _seed_needed (self m) = true \/ engine_seeded (_rng (self m)) ->
  _seed_needed (self (after (exec o) m)) = true \/
  engine_seeded (_rng (self (after (exec o) m))).
Proof.
  intros Hm. destruct (sampling o) eqn:Ho.
  - right. now apply sampling_seeded.
  - destruct o; try discriminate.
    + left. apply exec_flag.
    + right. destruct m as [[needed g] rd]. apply seeded_reseed.
Qed.

End Calls.

(** ** Sequences of calls *)

Section Runs.
Context {L : StdRandom}.

Lemma run_cons (o : op) (os : list op) (m : machine L) :
  run (o :: os) m =
    (returned (exec o) m :: returned (run os) (after (exec o) m),
     after (run os) (after (exec o) m)).
Proof.
  unfold returned, after. cbn [run]. unfold bind, ret.
  destruct (exec o m) as [v m1]. cbn [fst snd].
  now destruct (run os m1).
Qed.

Lemma after_run_cons (o : op) (os : list op) (m : machine L) :
  after (run (o :: os)) m = after (run os) (after (exec o) m).
Proof. unfold after at 1. now rewrite run_cons. Qed.


(** Entropy is never given back. *)
Lemma run_reads_mono (os : list op) (m : machine L) :
  (reads m <= reads (after (run os) m))%nat.
Proof.
  revert m. induction os as [| o os IH]; intros m; [apply Nat.le_refl |].
  rewrite after_run_cons. specialize (IH (after (exec o) m)).
  rewrite exec_reads in IH.
  destruct (sampling o && _seed_needed (self m)); lia.
Qed.





(** With no seed pending, a run of sampling calls does not depend on
    the entropy source and does not touch it. *)
Lemma run_seeded_frame (os : list op) (g : GRand L) (rd rd' : random_device) :
  forallb sampling os = true -> _seed_needed g = false ->
  run os (g, rd') =
    (returned (run os) (g, rd), (self (after (run os) (g, rd)), rd')).
Proof.
  revert g rd. induction os as [| o os IH]; intros g rd Hos Hg;
    [reflexivity |].
  cbn [forallb] in Hos. apply andb_prop in Hos as [Ho Hos].
  pose proof (exec_flag o (g, rd)) as Hflag.
  pose proof (exec_seeded_frame o g rd rd' Ho Hg) as Hexec.
  unfold returned, after, self in *. cbn [run]. unfold bind, ret.
  destruct (exec o (g, rd)) as [v [g1 rd1]]. cbn [fst snd] in *.
  rewrite Hexec.
  assert (Hg1 : _seed_needed g1 = false) by (rewrite Hflag; now destruct o).
  rewrite (IH g1 rd1 Hos Hg1).
  now destruct (run os (g1, rd1)) as [vs [g2 rd2]].
Qed.

(** C3.  Two instances constructed with the same explicit seed return
    the same results for the same sequence of sampling calls, whatever
    their entropy sources deliver; they end in the same state, and the
    entropy source is never read. *)
Theorem explicit_seed_deterministic
    (s : Z) (os : list op) (rd1 rd2 : random_device) :
  forallb sampling os = true ->
  returned (run os) (GRand_seeded s, rd1) =
    returned (run os) (GRand_seeded s, rd2) /\
  self (after (run os) (GRand_seeded s, rd1)) =
    self (after (run os) (GRand_seeded s, rd2)) /\
  snd (after (run os) (GRand_seeded s, rd1)) = rd1.
Proof.
  intros Hos.
  pose proof (run_seeded_frame os (GRand_seeded s) rd2 rd1 Hos eq_refl) as H.
  unfold returned at 1, after at 1 3. rewrite H. now cbn.
Qed.

(** [seed(s)] on a fresh instance gives the instance [GRand(s)]. *)
Lemma seed_with_default (s : Z) (rd : random_device) :
  seed_as_constructed ->
  after (seed_with s) (GRand_default, rd) = (GRand_seeded s, rd).
Proof.
  intros Hlib. unfold after, seed_with, bind, set_seed_needed, rng_seed.
  cbn. now rewrite Hlib.
Qed.

(** C6.  An instance constructed with no seed and then given [seed(s)]
    before any sampling is the instance constructed with seed [s]: the
    two are in the same state, so every later sequence of calls returns
    the same results and leaves the same machine.  The engine is taken
    to meet the Standard's requirement that [g.seed(v)] leaves [g] equal
    to [rng_type(v)]. *)
Theorem seed_after_default_is_seeded_ctor
    (s : Z) (rd : random_device) (os : list op) :
  seed_as_constructed ->
  self (after (seed_with s) (GRand_default, rd)) = GRand_seeded s /\
  run os (after (seed_with s) (GRand_default, rd)) =
    run os (GRand_seeded s, rd).
Proof.
  intros Hlib. now rewrite seed_with_default.
Qed.

End Runs.

(** ** The flag and the history of an instance *)

Section Histories.
Context {L : StdRandom}.







Lemma reach_seeded (c : ctor) (os : list op) (rd : random_device) :
  _seed_needed (self (reach c os rd)) = true \/
  engine_seeded (_rng (self (reach c os rd))).
Proof.
  unfold reach.
  assert (H0 : _seed_needed (self (construct c, rd)) = true \/
               engine_seeded (_rng (self (construct c, rd)))).
  { destruct c; [left; reflexivity | right; apply seeded_construct]. }
  revert H0. generalize (construct c, rd) as m.
  induction os as [| o os IH]; intros m Hm; [exact Hm |].
  rewrite after_run_cons. apply IH. now apply exec_seeded.
Qed.


End Histories.

(** ** The concrete library meets the contracts *)

Lemma mt19937_seed_as_constructed : @seed_as_constructed mt19937_library.
Proof. intros v g. reflexivity. Qed.

Lemma mt19937_uniform_int_range : @uniform_int_range mt19937_library.
Proof.
  intros lo hi g Hle. 
  change (lo <= fst (Mt19937.uniform_int lo hi g) <= hi).
  unfold Mt19937.uniform_int.
  destruct (Mt19937.call g) as [z g']. cbn [fst].
  pose proof (Z.mod_pos_bound z (hi - lo + 1)). lia.
Qed.

(** Two differently seeded engines differ in their first state word. *)
Lemma mt19937_seed_1_not_default :
  Mt19937.seed 1 <> Mt19937.seed Mt19937.default_seed.
Proof.
  intros H. apply (f_equal (fun g => hd 0 (Mt19937.x g))) in H.
  vm_compute in H. discriminate.
Qed.

(** ** The theorems at concrete inputs *)

Lemma i_range_witness :
  returned (i 0) fresh_machine = 0 /\
  0 <= returned (i 100) seeded_machine <= 100 - 1.
Proof.
  split.
  - apply (proj1 (i_range 0 fresh_machine)). lia.
  - apply (proj2 (i_range 100 seeded_machine)).
    + exact mt19937_uniform_int_range.
    + unfold in_range. cbn. lia.
    + lia.
Defined.


Lemma explicit_seed_deterministic_witness :
  returned (run [I 100; D 1; B 0.5]) (GRand_seeded 7, counting_device) =
  returned (run [I 100; D 1; B 0.5]) (GRand_seeded 7, silent_device).
Proof.
  apply (explicit_seed_deterministic 7 [I 100; D 1; B 0.5]
           counting_device silent_device).
  reflexivity.
Defined.

Lemma d_zero_frame_witness :
  Nat.iter 3 (after (d 0)) seeded_machine = seeded_machine.
Proof.
  apply (proj1 (proj2 (proj2 (d_zero_frame seeded_machine 3)))).
  reflexivity.
Defined.


Lemma seed_after_default_is_seeded_ctor_witness :
  run [I 100; D 1] (after (seed_with 42) (GRand_default, counting_device)) =
  run [I 100; D 1] (GRand_seeded 42, counting_device).
Proof.
  apply (seed_after_default_is_seeded_ctor 42 counting_device [I 100; D 1]).
  exact mt19937_seed_as_constructed.
Defined.

Lemma b_cases_witness :
  (returned (b 0) seeded_machine = false /\
   after (b 0) seeded_machine = seeded_machine) /\
  (returned (b 1) seeded_machine = true /\
   after (b 1) seeded_machine = seeded_machine) /\
  b 0.5 seeded_machine =
    draw (bernoulli_distribution 0.5) (after ck_seed seeded_machine).
Proof.
  split; [| split].
  - destruct (proj1 (b_cases 0 seeded_machine)) as (Hret & _ & Hsame);
      [reflexivity |].
    split; [exact Hret | apply Hsame; reflexivity].
  - destruct (proj1 (proj2 (b_cases 1 seeded_machine))) as (Hret & _ & Hsame);
      [reflexivity |].
    split; [exact Hret | apply Hsame; reflexivity].
  - apply (proj2 (proj2 (b_cases 0.5 seeded_machine))); reflexivity.
Defined.


(** ** Where the specification and the code part *)

(** C4.  On a freshly default-constructed instance, [d(0.0)] runs the
    lazy-seed check: it reads the entropy source and reseeds the engine,
    so the engine state is not unchanged across the call. *)
Lemma d_zero_reseeds_pending :
  returned (d 0) fresh_machine = 0%float /\
  _rng (self (after (d 0) fresh_machine)) <> _rng (self fresh_machine) /\
  reads (after (d 0) fresh_machine) = S (reads fresh_machine).
Proof.
  split; [reflexivity | split; [| reflexivity]].
  exact mt19937_seed_1_not_default.
Qed.

(** C7.  The same for [b(p)] with [p <= 0] and with [p >= 1]. *)
Lemma b_short_circuit_reseeds_pending :
  Double.le 0 0 = true /\
  returned (b 0) fresh_machine = false /\
  _rng (self (after (b 0) fresh_machine)) <> _rng (self fresh_machine) /\
  reads (after (b 0) fresh_machine) = S (reads fresh_machine) /\
  Double.ge 1 1 = true /\
  returned (b 1) fresh_machine = true /\
  _rng (self (after (b 1) fresh_machine)) <> _rng (self fresh_machine) /\
  reads (after (b 1) fresh_machine) = S (reads fresh_machine).
Proof.
  repeat split; try reflexivity; exact mt19937_seed_1_not_default.
Qed.




(** * Further properties *)

(** ** Seeding, explicit and lazy *)

Section Reseeding.
Context {L : StdRandom}.

(** X1.  [seed(s)] resets the instance whatever its past: after it the
    instance is in the state [GRand(s)] constructs (the entropy source
    untouched), also when a [seed()] request was pending, so every later
    sequence of calls runs as on a fresh [GRand(s)].  The engine is taken
    to meet the Standard's requirement on [g.seed(v)]. *)
Theorem seed_with_resets (s : Z) (m : machine L) (os : list op) :
  seed_as_constructed ->
  after (seed_with s) m = (GRand_seeded s, snd m) /\
  after (seed_with s) (after seed m) = (GRand_seeded s, snd m) /\
  run os (after (seed_with s) m) = run os (GRand_seeded s, snd m).
Proof.
  intros Hlib.
  assert (H : forall m0 : machine L,
             after (seed_with s) m0 = (GRand_seeded s, snd m0)).
  { intros [[needed g] rd]. unfold after, seed_with, bind, set_seed_needed,
      rng_seed, GRand_seeded. cbn [fst snd _seed_needed _rng].
    now rewrite Hlib. }
  split; [apply H | split].
  - rewrite H. now destruct m as [[needed g] rd].
  - now rewrite H.
Qed.

Lemma bind_congr {A B} (c : method L A) (k : A -> method L B)
    (m1 m2 : machine L) :
  c m1 = c m2 -> bind c k m1 = bind c k m2.
Proof. intros H. unfold bind. now rewrite H. Qed.

(** A sampling call starts with the check, so running the check first
    changes nothing. *)
Lemma exec_after_check (o : op) (m : machine L) :
  sampling o = true -> exec o (after ck_seed m) = exec o m.
Proof.
  intros Ho.
  assert (Hbody : forall A (body : method L A),
            bind ck_seed (fun _ => body) (after ck_seed m) =
            bind ck_seed (fun _ => body) m).
  { intros. now rewrite !after_check, after_ck_seed_twice. }
  destruct o; try discriminate; cbn [exec]; apply bind_congr, Hbody.
Qed.

Lemma run_after_check (o : op) (os : list op) (m : machine L) :
  sampling o = true -> run (o :: os) (after ck_seed m) = run (o :: os) m.
Proof.
  intros Ho. cbn [run]. now apply bind_congr, exec_after_check.
Qed.

Lemma ck_seed_as_seeded (m : machine L) :
  seed_as_constructed ->
  _seed_needed (self m) = true ->
  after ck_seed m = (GRand_seeded (next_word (snd m)), consumed (snd m)).
Proof.
  intros Hlib Hm. unfold after. rewrite ck_seed_pending by exact Hm.
  cbn [snd]. unfold GRand_seeded, next_word, consumed.
  now rewrite Hlib.
Qed.

(** X2.  Lazy seeding is explicit seeding with the word the entropy
    source delivers: an instance with a seed pending answers any sequence
    of calls that starts with a sampling call exactly as [GRand(w)] does,
    [w] being the next word of [std::random_device], next to the source
    with that word taken. *)
Theorem lazy_seed_as_explicit (m : machine L) (o : op) (os : list op) :
  seed_as_constructed ->
  _seed_needed (self m) = true ->
  sampling o = true ->
  run (o :: os) m =
    run (o :: os) (GRand_seeded (next_word (snd m)), consumed (snd m)).
Proof.
  intros Hlib Hm Ho.
  rewrite <- (run_after_check o os m Ho).
  now rewrite ck_seed_as_seeded.
Qed.

End Reseeding.

(** ** How much entropy a history takes *)

Section Entropy.
Context {L : StdRandom}.

(** What a call does to the entropy source: a sampling call with a seed
    pending takes one word, every other call leaves it alone. *)
Lemma exec_entropy (o : op) (m : machine L) :
  snd (after (exec o) m) =
    if sampling o && _seed_needed (self m) then consumed (snd m) else snd m.
Proof.
  destruct m as [[needed g] rd], o; unfold after, self, consumed;
    unfold_calls; destruct needed; by_cases.
Qed.

Lemma run_without_request (os : list op) (m : machine L) :
  _seed_needed (self m) = false ->
  forallb (fun o => negb (seed_request (Invoke o))) os = true ->
  snd (after (run os) m) = snd m.
Proof.
  revert m. induction os as [| o os IH]; intros m Hm Hos; [reflexivity |].
  cbn [forallb] in Hos. apply andb_prop in Hos as [Ho Hos].
  rewrite after_run_cons, IH.
  - rewrite exec_entropy, Hm. now rewrite andb_false_r.
  - rewrite exec_flag. now destruct (seed_request (Invoke o)).
  - exact Hos.
Qed.

(** X3.  An instance that is seeded explicitly before its first use
    never touches [std::random_device]: after [seed(s)] on any fresh
    instance, or after [GRand(s)], any sequence of calls without [seed()]
    leaves the entropy source as it was. *)
Theorem explicit_seeding_never_reads_entropy
    (c : ctor) (s : Z) (os : list op) (rd : random_device) :
  forallb (fun o => negb (seed_request (Invoke o))) os = true ->
  snd (reach c (SeedWith s :: os) rd) = rd /\
  snd (reach (NewSeeded s) os rd) = rd.
Proof.
  intros Hos. unfold reach. split.
  - rewrite after_run_cons, run_without_request.
    + rewrite exec_entropy. reflexivity.
    + apply exec_flag.
    + exact Hos.
  - now rewrite run_without_request.
Qed.

Lemma reads_bounded_by_requests (os : list op) (m : machine L) :
  (reads (after (run os) m) + (if _seed_needed (self (after (run os) m)) then 1 else 0)
   <= reads m + (if _seed_needed (self m) then 1 else 0)
      + length (filter seed_request (map Invoke os)))%nat.
Proof.
  revert m. induction os as [| o os IH]; intros m; [cbn; lia |].
  rewrite after_run_cons. specialize (IH (after (exec o) m)).
  rewrite exec_flag, exec_reads in IH. cbn [map filter].
  destruct (seed_request (Invoke o)) eqn:Hreq; cbn [length].
  - destruct o; try discriminate. cbn [sampling andb] in IH. 
    destruct (_seed_needed (self m)); lia.
  - destruct (sampling o), (_seed_needed (self m)); cbn [andb] in IH; lia.
Qed.

(** X4.  Over any history, the entropy source is read at most once per
    request for an entropy seed (the construction without seed and each
    [seed()]), and is never given anything back. *)
Theorem entropy_reads_bounded_by_requests
    (c : ctor) (os : list op) (rd : random_device) :
  (rd_reads rd <= reads (reach c os rd)
   <= rd_reads rd + length (filter seed_request (history c os)))%nat.
Proof.
  unfold reach. split.
  - apply (run_reads_mono os (construct c, rd)).
  - pose proof (reads_bounded_by_requests os (construct c, rd)) as H.
    unfold history. cbn [filter].
    change (reads (construct c, rd)) with (rd_reads rd) in H.
    destruct c as [| s]; cbn [seed_request length].
    + change (_seed_needed (self (@construct L New, rd))) with true in H.
      destruct (_seed_needed (self (after (run os) _))); lia.
    + change (_seed_needed (self (@construct L (NewSeeded s), rd)))
        with false in H.
      destruct (_seed_needed (self (after (run os) _))); lia.
Qed.

End Entropy.

(** ** The instance as a generator of words *)

Section Words.
Context {L : StdRandom}.

Lemma call_idle (g : GRand L) (rd : random_device) :
  _seed_needed g = false ->
  call (g, rd) =
    (fst (rng_call (_rng g)),
     ({| _seed_needed := false; _rng := snd (rng_call (_rng g)) |}, rd)).
Proof.
  destruct g as [needed g]. cbn [_seed_needed _rng]. intros ->.
  unfold call. rewrite after_check, after_ck_seed_idle by reflexivity.
  unfold draw. cbn [fst snd _rng _seed_needed]. now destruct (rng_call g).
Qed.

Lemma exec_call (m : machine L) :
  exec Call m = (VInt (fst (call m)), snd (call m)).
Proof. cbn [exec]. unfold bind, ret. now destruct (call m). Qed.

Lemma calls_are_engine_words (k : nat) (g : GRand L) (rd : random_device) :
  _seed_needed g = false ->
  returned (run (repeat Call k)) (g, rd) = map VInt (engine_words k (_rng g)).
Proof.
  revert g. induction k as [| k IH]; intros g Hg; [reflexivity |].
  cbn [repeat]. unfold returned. rewrite run_cons. cbn [fst engine_words].
  unfold returned, after. rewrite exec_call, (call_idle g rd Hg).
  cbn [fst snd].
  destruct (rng_call (_rng g)) as [z g'] eqn:E. cbn [fst snd map].
  f_equal. apply (IH {| _seed_needed := false; _rng := g' |}). reflexivity.
Qed.

(** X5.  Used as a generator, an instance hands out the words of its
    engine: [k] calls of [operator()()] on [GRand(s)] return the first [k]
    words of [rng_type(s)], and on an instance with a seed pending the
    first [k] words of the engine seeded with the next entropy word. *)
Theorem calls_are_the_engine_stream
    (s : Z) (k : nat) (m : machine L) (rd : random_device) :
  returned (run (repeat Call k)) (GRand_seeded s, rd) =
    map VInt (engine_words k (rng_construct (result_type s))) /\
  (_seed_needed (self m) = true ->
   returned (run (repeat Call k)) m =
     map VInt (engine_words k
       (rng_reseed (result_type (next_word (snd m))) (_rng (self m))))).
Proof.
  split.
  - now apply calls_are_engine_words.
  - intros Hm. destruct k as [| k]; [reflexivity |].
    cbn [repeat].
    unfold returned. rewrite <- run_after_check by reflexivity.
    unfold after. rewrite ck_seed_pending by exact Hm. cbn [snd].
    now apply (calls_are_engine_words (S k)).
Qed.

End Words.

(** ** NaN, and the order of the other doubles *)

Module NanFacts.

Lemma nan_spec (x : float) :
  PrimFloat.is_nan x = true -> Prim2SF x = S754_nan.
Proof.
  unfold PrimFloat.is_nan. rewrite FloatAxioms.eqb_spec.
  destruct (Prim2SF x) as [sx|sx| |sx mx ex]; try reflexivity;
    try (destruct sx; discriminate).
  unfold SFeqb, SFcompare.
  destruct sx; rewrite Z.compare_refl, Pos.compare_cont_refl; discriminate.
Qed.

(** A NaN compares false with everything, on either side. *)
Lemma nan_compares_false (x y : float) :
  PrimFloat.is_nan x = true ->
  Double.lt x y = false /\ Double.lt y x = false /\
  Double.le x y = false /\ Double.le y x = false.
Proof.
  intros Hx. apply nan_spec in Hx.
  unfold Double.lt, Double.le.
  rewrite !FloatAxioms.ltb_spec, !FloatAxioms.leb_spec, Hx.
  destruct (Prim2SF y) as [sy|sy| |sy my ey]; try destruct sy; auto.
Qed.

(** Negation is an involution, on every double. *)
Lemma neg_involutive (x : float) : Double.neg (Double.neg x) = x.
Proof.
  apply FloatAxioms.Prim2SF_inj. unfold Double.neg.
  rewrite !FloatAxioms.opp_spec.
  destruct (Prim2SF x) as [sx|sx| |sx mx ex]; cbn;
    try rewrite negb_involutive; reflexivity.
Qed.

(** [x > 0] gives [-x < 0]. *)
Lemma neg_negative (x : float) :
  Double.gt x 0 = true -> Double.lt (Double.neg x) 0 = true.
Proof.
  unfold Double.gt, Double.lt, Double.neg.
  rewrite !FloatAxioms.ltb_spec, FloatAxioms.opp_spec.
  change (Prim2SF 0) with (S754_zero false).
  destruct (Prim2SF x) as [sx|sx| |sx mx ex];
    try destruct sx; cbn; congruence.
Qed.

Lemma not_nan_spec (x : float) :
  PrimFloat.is_nan x = false -> Prim2SF x <> S754_nan.
Proof.
  unfold PrimFloat.is_nan. rewrite FloatAxioms.eqb_spec.
  intros H E. rewrite E in H. discriminate.
Qed.

(** Two doubles that are not NaN are comparable. *)
Lemma not_le_lt (x y : float) :
  PrimFloat.is_nan x = false -> PrimFloat.is_nan y = false ->
  Double.le y x = false -> Double.lt x y = true.
Proof.
  intros Hx Hy. apply not_nan_spec in Hx, Hy.
  unfold Double.le, Double.lt.
  rewrite FloatAxioms.leb_spec, FloatAxioms.ltb_spec.
  unfold SFleb, SFltb.
  rewrite (DoubleFacts.SFcompare_antisym (Prim2SF x) (Prim2SF y)).
  destruct (Prim2SF x) as [sx|sx| |sx mx ex];
    destruct (Prim2SF y) as [sy|sy| |sy my ey];
    try congruence; try destruct sx; try destruct sy; cbn; try congruence.
  all: destruct (ex ?= ey); cbn; try congruence.
  all: destruct (Pos.compare_cont Eq mx my); cbn; congruence.
Qed.

(** What is neither [<= 0] nor [>= 1] is strictly between, or NaN. *)
Lemma between_guards (p : float) :
  Double.le p 0 = false -> Double.ge p 1 = false ->
  (Double.gt p 0 = true /\ Double.lt p 1 = true) \/
  PrimFloat.is_nan p = true.
Proof.
  intros H0 H1. destruct (PrimFloat.is_nan p) eqn:Hp; [now right | left].
  split.
  - now apply (not_le_lt 0 p).
  - now apply (not_le_lt p 1).
Qed.

End NanFacts.

(** ** Doubles that are not infinite *)

Module FiniteFacts.









End FiniteFacts.

(** ** More on [d] and [b] *)

Section Mirroring.
Context {L : StdRandom}.

(** [d(x)] when [x] is neither above nor below zero. *)
Lemma d_neither (x : float) (m : machine L) :
  Double.gt x 0 = false -> Double.lt x 0 = false ->
  d x m = (0%float, after ck_seed m).
Proof.
  intros Hgt Hlt. unfold d. rewrite after_check, Hgt, Hlt. reflexivity.
Qed.

(** X6.  The arguments the comparisons do not order.  [d(x)] for [x] a
    zero of either sign or a NaN returns [+0.0] and draws nothing.
    [b(p)] for [p] a NaN takes neither short cut: the NaN is handed to
    [bernoulli_distribution]. *)
Theorem nan_and_zero_arguments (x : float) (m : machine L) :
  (PrimFloat.eqb x 0 = true \/ PrimFloat.is_nan x = true ->
     d x m = (0%float, after ck_seed m)) /\
  (PrimFloat.is_nan x = true ->
     b x m = draw (bernoulli_distribution x) (after ck_seed m)).
Proof.
  split.
  - intros [Hx | Hx].
    + now apply d_zero.
    + destruct (NanFacts.nan_compares_false x 0 Hx) as (Hlt & Hgt & _).
      now apply d_neither.
  - intros Hx.
    destruct (NanFacts.nan_compares_false x 0 Hx) as (_ & _ & Hle & _).
    destruct (NanFacts.nan_compares_false x 1 Hx) as (_ & _ & _ & Hge).
    unfold b. rewrite after_check.
    change (Double.ge x 1) with (Double.le 1 x). now rewrite Hle, Hge.
Qed.

(** X8.  A negative bound mirrors the positive one: from the same
    machine, [d(-x)] for [x > 0] returns the negation of what [d(x)]
    returns and leaves the same machine. *)
Theorem d_mirror (x : float) (m : machine L) :
  Double.gt x 0 = true ->
  returned (d (Double.neg x)) m = Double.neg (returned (d x) m) /\
  after (d (Double.neg x)) m = after (d x) m.
Proof.
  intros Hx.
  pose proof (NanFacts.neg_negative x Hx) as Hneg.
  unfold returned, after.
  rewrite (d_negative (Double.neg x) m Hneg), (d_positive x m Hx).
  rewrite NanFacts.neg_involutive. unfold bind, ret.
  now destruct (draw _ _).
Qed.

End Mirroring.

(** ** [operator()(n)] at any integer type *)

Section AnyIntType.
Context {L : StdRandom}.

(** X9.  [operator()(n)] at any integer type [T]: for [n <= 0] it
    returns 0 and draws nothing, all it does to the machine being the
    lazy-seed check; for [n > 0] the bounds [0] and [n-1], computed in
    [T], do not wrap, and the call is the library's
    [uniform_int_distribution(0, n-1)] on the engine the check leaves,
    a value in [[0, n-1]] when the library keeps to its range. *)
Theorem call_n_contract (T : IntType) (n : Z) (m : machine L) :
  holds_0_1 T -> in_range T n ->
  (n <= 0 -> call_n T n m = (0, after ck_seed m)) /\
  (0 < n ->
     call_n T n m =
       draw (uniform_int_distribution 0 (n - 1)) (after ck_seed m)) /\
  (uniform_int_range -> 0 < n -> 0 <= returned (call_n T n) m <= n - 1).
Proof.
  intros [H0 H1] Hn. split; [| split].
  - intros Hle. unfold call_n.
    rewrite after_check, (cast_in_range T 0) by (unfold in_range; lia).
    destruct (Z.leb_spec n 0); [reflexivity | lia].
  - intros Hpos. unfold call_n. rewrite after_check.
    rewrite (cast_in_range T 0), (cast_in_range T 1) by (unfold in_range; lia).
    rewrite (cast_in_range T (n - 1)) by (unfold in_range in *; lia).
    destruct (Z.leb_spec n 0); [lia | reflexivity].
  - intros Hlib Hpos. now apply call_n_positive.
Qed.

End AnyIntType.


(** ** What is asked of the library *)

Section Requests.
Context {L : StdRandom}.

Lemma mirrors_ret {A} (a : A) : mirrors (ret a) (ret a).
Proof. intros m. reflexivity. Qed.

Lemma mirrors_bind {A B} (c' : method (logged L) A) (c : method L A)
    (k' : A -> method (logged L) B) (k : A -> method L B) :
  mirrors c' c -> (forall a, mirrors (k' a) (k a)) ->
  mirrors (bind c' k') (bind c k).
Proof.
  intros Hc Hk m. unfold bind. rewrite Hc.
  destruct (c' m) as [a m1]. apply Hk.
Qed.

Lemma mirrors_set_seed_needed (v : bool) :
  mirrors (set_seed_needed v) (set_seed_needed v).
Proof. intros [[needed [g log]] rd]. reflexivity. Qed.

Lemma mirrors_rng_seed (v : Z) : mirrors (rng_seed v) (rng_seed v).
Proof. intros [[needed [g log]] rd]. reflexivity. Qed.

Lemma mirrors_ck_seed : mirrors ck_seed ck_seed.
Proof. intros [[[] [g log]] rd]; reflexivity. Qed.

Lemma mirrors_draw {A} (r : request) (dist : rng_type -> A * rng_type) :
  mirrors (@draw (logged L) A (noting r dist)) (draw dist).
Proof.
  intros [[needed [g log]] rd]. unfold draw, noting, unlogged, self.
  cbn [fst snd _rng _seed_needed]. now destruct (dist g).
Qed.

Lemma mirrors_exec (o : op) : mirrors (exec o) (exec o).
Proof.
  destruct o; cbn [exec];
    (apply mirrors_bind; [| intros; apply mirrors_ret]).
  - apply mirrors_set_seed_needed.
  - apply mirrors_bind; [apply mirrors_set_seed_needed |].
    intros _. exact (mirrors_rng_seed _).
  - apply mirrors_bind; [apply mirrors_ck_seed | intros _].
    destruct (n <=? cast int 0); [apply mirrors_ret |].
    exact (mirrors_draw _ _).
  - apply mirrors_bind; [apply mirrors_ck_seed | intros _].
    destruct (Double.gt x 0); [exact (mirrors_draw _ _) |].
    destruct (Double.lt x 0); [| apply mirrors_ret].
    apply mirrors_bind; [exact (mirrors_draw _ _) |].
    intros; apply mirrors_ret.
  - apply mirrors_bind; [apply mirrors_ck_seed | intros _].
    destruct (Double.le p 0); [apply mirrors_ret |].
    destruct (Double.ge p 1); [apply mirrors_ret |].
    exact (mirrors_draw _ _).
  - apply mirrors_bind; [apply mirrors_ck_seed | intros _].
    exact (mirrors_draw _ _).
  - apply mirrors_bind; [apply mirrors_ck_seed | intros _].
    destruct (n <=? cast T 0); [apply mirrors_ret |].
    exact (mirrors_draw _ _).
Qed.

Lemma mirrors_run (os : list op) : mirrors (run os) (run os).
Proof.
  induction os as [| o os IH]; cbn [run]; [apply mirrors_ret |].
  apply mirrors_bind; [apply mirrors_exec | intros v].
  apply mirrors_bind; [exact IH | intros; apply mirrors_ret].
Qed.

Lemma guarded_ret {A} (a : A) : guarded (ret a).
Proof. intros m Hm. exact Hm. Qed.

Lemma guarded_bind {A B} (c' : method (logged L) A)
    (k' : A -> method (logged L) B) :
  guarded c' -> (forall a, guarded (k' a)) -> guarded (bind c' k').
Proof.
  intros Hc Hk m Hm. unfold bind. specialize (Hc m Hm).
  destruct (c' m) as [a m1]. now apply Hk.
Qed.

Lemma guarded_set_seed_needed (v : bool) : guarded (set_seed_needed v).
Proof. intros [[needed [g log]] rd] Hm. exact Hm. Qed.

Lemma guarded_rng_seed (v : Z) : guarded (rng_seed v).
Proof. intros [[needed [g log]] rd] Hm. exact Hm. Qed.

Lemma guarded_ck_seed : guarded ck_seed.
Proof. intros [[[] [g log]] rd] Hm; exact Hm. Qed.

Lemma guarded_draw {A} (r : request) (dist : rng_type -> A * rng_type) :
  let_through r -> guarded (@draw (logged L) A (noting r dist)).
Proof.
  intros Hr [[needed [g log]] rd] Hm.
  unfold draw, noting, requests_made, self in *.
  cbn [fst snd _rng _seed_needed] in *. destruct (dist g).
  cbn [fst snd _rng]. now constructor.
Qed.

Lemma guarded_call_n (T : IntType) (n : Z) :
  holds_0_1 T -> in_range T n -> guarded (call_n T n).
Proof.
  intros [H0 H1] Hn.
  apply guarded_bind; [apply guarded_ck_seed | intros _].
  rewrite (cast_in_range T 0), (cast_in_range T 1) by (unfold in_range; lia).
  destruct (Z.leb_spec n 0); [apply guarded_ret |].
  rewrite (cast_in_range T (n - 1)) by (unfold in_range in *; lia).
  apply (guarded_draw (UniformInt 0 (n - 1))). cbn. lia.
Qed.

Lemma guarded_exec (o : op) : well_typed o -> guarded (exec o).
Proof.
  intros Ho.
  destruct o; cbn [exec];
    (apply guarded_bind; [| intros; apply guarded_ret]).
  - apply guarded_set_seed_needed.
  - apply guarded_bind; [apply guarded_set_seed_needed |].
    intros _. apply guarded_rng_seed.
  - apply guarded_call_n; [unfold holds_0_1; cbn; lia | exact Ho].
  - apply guarded_bind; [apply guarded_ck_seed | intros _].
    destruct (Double.gt x 0) eqn:Hgt.
    { apply (guarded_draw (UniformReal 0 x)). now split. }
    destruct (Double.lt x 0) eqn:Hlt; [| apply guarded_ret].
    apply guarded_bind; [| intros; apply guarded_ret].
    apply (guarded_draw (UniformReal 0 (Double.neg x))).
    split; [reflexivity | now apply DoubleFacts.neg_positive].
  - apply guarded_bind; [apply guarded_ck_seed | intros _].
    destruct (Double.le p 0) eqn:H0; [apply guarded_ret |].
    destruct (Double.ge p 1) eqn:H1; [apply guarded_ret |].
    apply (guarded_draw (Bernoulli p)).
    now apply NanFacts.between_guards.
  - apply guarded_bind; [apply guarded_ck_seed | intros _].
    now apply (guarded_draw NextWord).
  - destruct Ho. now apply guarded_call_n.
Qed.

(** X10.  Over any history of calls with arguments of their declared
    types, every request an instance makes of the library passes its
    guards: [uniform_int_distribution] only with bounds [0 <= b],
    [uniform_real_distribution] only with bounds [0 < b], and
    [bernoulli_distribution] only with [0 < p < 1] or a NaN.  The record
    is that of the run itself: the wrapped run returns what the run over
    the library returns. *)
Theorem library_requests_pass_the_guards
    (c : ctor) (os : list op) (rd : random_device) :
  Forall well_typed os ->
  Forall let_through (requests_made (@reach (logged L) c os rd)) /\
  @run L os (construct c, rd) =
    (returned (@run (logged L) os) (construct c, rd),
     unlogged (@reach (logged L) c os rd)).
Proof.
  intros Hos. split.
  - unfold reach.
    assert (H0 : Forall let_through
                   (requests_made ((@construct (logged L) c), rd))).
    { destruct c; constructor. }
    revert H0. generalize ((@construct (logged L) c), rd) as m.
    induction Hos as [| o os Ho Hos IH]; intros m Hm; [exact Hm |].
    rewrite after_run_cons. apply IH. now apply guarded_exec.
  - pose proof (mirrors_run os (@construct (logged L) c, rd)) as H.
    unfold returned, reach, after. rewrite <- H. now destruct c.
Qed.

End Requests.

(** ** Totality: the requests stay within what the Standard requires *)

Section Totality.
Context {L : StdRandom}.












End Totality.


(** ** The range of [operator()()] *)

Section Generator.
Context {L : StdRandom}.

(** X11.  In every reachable state, also with a seed pending,
    [operator()()] returns a value between [min()] and [max()]: the
    engine it calls has been seeded, and a seeded engine is taken to keep
    to its range. *)
Theorem call_within_min_max (c : ctor) (os : list op) (rd : random_device) :
  rng_call_range ->
  min <= returned call (reach c os rd) <= max.
Proof.
  intros Hlib. unfold returned, call.
  rewrite after_check, draw_returns.
  apply Hlib, ck_seed_seeds, reach_seeded.
Qed.

End Generator.


(** ** The engine model keeps to 32-bit words *)

Module Mt19937Facts.

Lemma word32_log2 (z : Z) : 0 <= z -> (z < 2 ^ 32 <-> Z.log2 z < 32).
Proof.
  intros Hz. destruct (Z.eq_dec z 0) as [-> | Hnz].
  - cbn. lia.
  - apply Z.log2_lt_pow2. lia.
Qed.

Lemma word32_lxor (a b : Z) : word32 a -> word32 b -> word32 (Z.lxor a b).
Proof.
  intros [Ha0 Ha] [Hb0 Hb].
  assert (H0 : 0 <= Z.lxor a b) by (apply Z.lxor_nonneg; tauto).
  split; [exact H0 |].
  apply word32_log2; [exact H0 |].
  pose proof (Z.log2_lxor a b Ha0 Hb0).
  apply word32_log2 in Ha, Hb; lia.
Qed.

Lemma word32_lor (a b : Z) : word32 a -> word32 b -> word32 (Z.lor a b).
Proof.
  intros [Ha0 Ha] [Hb0 Hb].
  assert (H0 : 0 <= Z.lor a b) by (apply Z.lor_nonneg; tauto).
  split; [exact H0 |].
  apply word32_log2; [exact H0 |].
  rewrite Z.log2_lor by assumption.
  apply word32_log2 in Ha, Hb; lia.
Qed.

Lemma word32_land (a b : Z) : 0 <= a -> word32 b -> word32 (Z.land a b).
Proof.
  intros Ha0 [Hb0 Hb].
  assert (H0 : 0 <= Z.land a b) by (apply Z.land_nonneg; tauto).
  split; [exact H0 |].
  apply word32_log2; [exact H0 |].
  pose proof (Z.log2_land a b Ha0 Hb0).
  apply word32_log2 in Hb; lia.
Qed.

Lemma word32_shiftr (a k : Z) : word32 a -> 0 <= k -> word32 (Z.shiftr a k).
Proof.
  intros [Ha0 Ha] Hk. rewrite Z.shiftr_div_pow2 by exact Hk.
  assert (0 < 2 ^ k) by (apply Z.pow_pos_nonneg; lia).
  split.
  - apply Z.div_pos; lia.
  - apply Z.le_lt_trans with a; [| exact Ha].
    apply Z.div_le_upper_bound; nia.
Qed.

Lemma word32_mod (z : Z) : word32 (z mod 2 ^ Mt19937.w).
Proof. unfold word32. apply Z.mod_pos_bound. reflexivity. Qed.

Lemma temper_word (y : Z) : word32 y -> word32 (Mt19937.temper y).
Proof.
  intros Hy. unfold Mt19937.temper.
  assert (Hl : forall z k c, word32 z -> 0 <= k -> word32 c ->
             word32 (Z.land (Z.shiftl z k) c)).
  { intros z k c [Hz _] Hk Hc. apply word32_land; [| exact Hc].
    apply Z.shiftl_nonneg. exact Hz. }
  assert (H1 : word32 (Z.lxor y (Z.land (Z.shiftr y Mt19937.u) 0xffffffff))).
  { apply word32_lxor; [exact Hy |]. apply word32_land.
    - apply word32_shiftr; [exact Hy | unfold Mt19937.u; lia].
    - unfold word32. lia. }
  set (y1 := Z.lxor y _) in *.
  assert (H2 : word32 (Z.lxor y1 (Z.land (Z.shiftl y1 Mt19937.s) Mt19937.b))).
  { apply word32_lxor; [exact H1 |].
    apply Hl; [exact H1 | unfold Mt19937.s; lia |].
    unfold word32, Mt19937.b. lia. }
  set (y2 := Z.lxor y1 _) in *.
  assert (H3 : word32 (Z.lxor y2 (Z.land (Z.shiftl y2 Mt19937.t) Mt19937.c))).
  { apply word32_lxor; [exact H2 |].
    apply Hl; [exact H2 | unfold Mt19937.t; lia |].
    unfold word32, Mt19937.c. lia. }
  set (y3 := Z.lxor y2 _) in *.
  apply word32_lxor; [exact H3 |].
  apply word32_shiftr; [exact H3 | unfold Mt19937.l; lia].
Qed.

Lemma fill_words (count : nat) (k prev : Z) :
  Forall word32 (Mt19937.fill count k prev).
Proof.
  revert k prev. induction count as [| count IH]; intros k prev; cbn [Mt19937.fill].
  - constructor.
  - constructor; [apply word32_mod | apply IH].
Qed.

Lemma seed_words (v : Z) : mt19937_words (Mt19937.seed v).
Proof.
  unfold mt19937_words, Mt19937.seed. cbn [Mt19937.x].
  constructor; [apply word32_mod | apply fill_words].
Qed.

Lemma nth_word (k : nat) (xs : list Z) :
  Forall word32 xs -> word32 (nth k xs 0).
Proof.
  intros Hxs. revert k. induction Hxs as [| z xs Hz Hxs IH]; intros [| k];
    cbn [nth]; try (unfold word32; lia); [exact Hz | apply IH].
Qed.

Lemma set_words (k : nat) (v : Z) (xs : list Z) :
  word32 v -> Forall word32 xs -> Forall word32 (Mt19937.set k v xs).
Proof.
  intros Hv Hxs. revert k. induction Hxs as [| z xs Hz Hxs IH]; intros k.
  - destruct k; constructor.
  - destruct k as [| k]; cbn [Mt19937.set]; constructor; auto.
Qed.

Lemma twist_at_words (xs : list Z) (k : nat) :
  Forall word32 xs -> Forall word32 (Mt19937.twist_at xs k).
Proof.
  intros Hxs. unfold Mt19937.twist_at.
  assert (Hy : word32
    (Z.lor (Z.land (nth k xs 0) Mt19937.upper_mask)
       (Z.land (nth (Nat.modulo (k + 1) Mt19937.n) xs 0) Mt19937.lower_mask))).
  { apply word32_lor; apply word32_land;
      try (apply (nth_word _ _ Hxs));
      unfold word32, Mt19937.upper_mask, Mt19937.lower_mask; lia. }
  set (y := Z.lor _ _) in *.
  apply set_words; [| exact Hxs].
  apply word32_lxor.
  - apply word32_lxor; [now apply nth_word |].
    apply word32_shiftr; [exact Hy | lia].
  - destruct (Z.odd y); unfold word32, Mt19937.a; lia.
Qed.

Lemma twist_words (xs : list Z) :
  Forall word32 xs -> Forall word32 (Mt19937.twist xs).
Proof.
  unfold Mt19937.twist. generalize (seq 0 Mt19937.n) as ks.
  intros ks. revert xs. induction ks as [| k ks IH]; intros xs Hxs;
    cbn [fold_left]; [exact Hxs |].
  apply IH. now apply twist_at_words.
Qed.

(** An engine of 32-bit words returns a 32-bit word and stays one. *)
Lemma call_words (g : Mt19937.state) :
  mt19937_words g ->
  word32 (fst (Mt19937.call g)) /\ mt19937_words (snd (Mt19937.call g)).
Proof.
  intros Hg. unfold Mt19937.call, mt19937_words in *.
  destruct (Nat.leb Mt19937.n (Mt19937.p g)); cbn [fst snd Mt19937.x Mt19937.p].
  - pose proof (twist_words _ Hg) as Ht. split; [| exact Ht].
    apply temper_word. now apply nth_word.
  - split; [| exact Hg]. apply temper_word. now apply nth_word.
Qed.

Lemma canonical_words (g : Mt19937.state) :
  mt19937_words g -> mt19937_words (snd (Mt19937.canonical g)).
Proof.
  intros Hg. unfold Mt19937.canonical.
  pose proof (call_words g Hg) as [_ H1].
  destruct (Mt19937.call g) as [z1 g1]. cbn [snd] in H1.
  pose proof (call_words g1 H1) as [_ H2].
  destruct (Mt19937.call g1) as [z2 g2]. exact H2.
Qed.

Lemma seeded_words (g : Mt19937.state) :
  @engine_seeded mt19937_library g -> mt19937_words g.
Proof.
  induction 1 as [v | v g | g _ IH | lo hi g _ IH | lo hi g _ IH | q g _ IH].
  - apply seed_words.
  - apply seed_words.
  - apply (call_words g IH).
  - change (mt19937_words (snd (Mt19937.uniform_int lo hi g))).
    unfold Mt19937.uniform_int.
    pose proof (call_words g IH) as [_ H]. now destruct (Mt19937.call g).
  - change (mt19937_words (snd (Mt19937.uniform_real lo hi g))).
    unfold Mt19937.uniform_real.
    pose proof (canonical_words g IH) as H.
    now destruct (Mt19937.canonical g).
  - change (mt19937_words (snd (Mt19937.bernoulli q g))).
    unfold Mt19937.bernoulli.
    pose proof (canonical_words g IH) as H.
    now destruct (Mt19937.canonical g).
Qed.

End Mt19937Facts.

Lemma mt19937_rng_call_range : @rng_call_range mt19937_library.
Proof.
  intros g Hg.
  change (Mt19937.min <= fst (Mt19937.call g) <= Mt19937.max).
  destruct (Mt19937Facts.call_words g (Mt19937Facts.seeded_words g Hg))
    as [[H0 H1] _].
  unfold Mt19937.min, Mt19937.max, Mt19937.w. lia.
Qed.


(** ** The further properties at concrete inputs *)

Lemma seed_with_resets_witness :
  run [I 100; D 1] (after (seed_with 42) seeded_machine) =
  run [I 100; D 1] (GRand_seeded 42, counting_device).
Proof.
  apply (seed_with_resets 42 seeded_machine [I 100; D 1]).
  exact mt19937_seed_as_constructed.
Defined.

Lemma explicit_seeding_never_reads_entropy_witness :
  snd (reach New [SeedWith 2; I 100; SeedWith 3; D 1; B 0.5] counting_device)
    = counting_device.
Proof.
  apply (proj1 (explicit_seeding_never_reads_entropy New 2
                  [I 100; SeedWith 3; D 1; B 0.5] counting_device eq_refl)).
Defined.

Lemma lazy_seed_as_explicit_witness :
  run [I 100; D 1] fresh_machine =
  run [I 100; D 1]
    (GRand_seeded (next_word counting_device), consumed counting_device).
Proof.
  apply (lazy_seed_as_explicit fresh_machine (I 100) [D 1]).
  - exact mt19937_seed_as_constructed.
  - reflexivity.
  - reflexivity.
Defined.

Lemma calls_are_the_engine_stream_witness :
  returned (run (repeat Call 3)) fresh_machine =
    map VInt (engine_words 3 (Mt19937.seed 1)).
Proof.
  apply (proj2 (calls_are_the_engine_stream 0 3 fresh_machine counting_device)).
  reflexivity.
Defined.

Lemma nan_and_zero_arguments_witness :
  d PrimFloat.neg_zero seeded_machine = (0%float, seeded_machine) /\
  d PrimFloat.nan seeded_machine = (0%float, seeded_machine) /\
  b PrimFloat.nan seeded_machine =
    draw (bernoulli_distribution PrimFloat.nan) seeded_machine.
Proof.
  split; [| split].
  - apply (proj1 (nan_and_zero_arguments PrimFloat.neg_zero seeded_machine)).
    left. reflexivity.
  - apply (proj1 (nan_and_zero_arguments PrimFloat.nan seeded_machine)).
    right. reflexivity.
  - apply (proj2 (nan_and_zero_arguments PrimFloat.nan seeded_machine)).
    reflexivity.
Defined.

Lemma d_mirror_witness :
  returned (d (Double.neg 3)) seeded_machine =
    Double.neg (returned (d 3) seeded_machine).
Proof.
  apply (proj1 (d_mirror 3 seeded_machine eq_refl)).
Defined.

Lemma call_n_contract_witness :
  call_n unsigned_long 0 seeded_machine = (0, seeded_machine) /\
  0 <= returned (call_n unsigned_long (2 ^ 40)) seeded_machine <= 2 ^ 40 - 1.
Proof.
  assert (H : holds_0_1 unsigned_long) by (unfold holds_0_1; cbn; lia).
  assert (H0 : in_range unsigned_long 0) by (unfold in_range; cbn; lia).
  assert (H1 : in_range unsigned_long (2 ^ 40)) by (unfold in_range; cbn; lia).
  split.
  - apply (proj1 (call_n_contract unsigned_long 0 seeded_machine H H0)). lia.
  - apply (proj2 (proj2 (call_n_contract unsigned_long (2 ^ 40)
                           seeded_machine H H1))).
    + exact mt19937_uniform_int_range.
    + lia.
Defined.

Lemma library_requests_pass_the_guards_witness :
  Forall let_through
    (requests_made
       (@reach (logged mt19937_library) New
          [I 100; D (-3); B 0.5; Call; I 0; D 0; B 2] counting_device)).
Proof.
  apply (library_requests_pass_the_guards New
           [I 100; D (-3); B 0.5; Call; I 0; D 0; B 2] counting_device).
  repeat constructor; unfold in_range; cbn; lia.
Defined.

Lemma call_within_min_max_witness :
  min <= returned call (reach New [B 0.5; Seed] counting_device) <= max.
Proof.
  apply (call_within_min_max New [B 0.5; Seed] counting_device).
  exact mt19937_rng_call_range.
Defined.

(** ** Totality at concrete inputs, and where it ends *)


